(** * Wuerstchen demo application: filename allocation, seed resolution and
      the generation request lifecycle

    A shallow embedding of [wuerstchen_app.py].  The parts of the program that
    live in third-party libraries (the two generative pipelines, the torch
    random-number generator, [random.randint], PIL's [Image.save]) are
    parameters of the model; everything the module itself computes is a Rocq
    definition that follows the Python text.

    Conventions.
    - A Python [int] is a [Z].
    - The file system is a finite map from paths to file contents.
    - A call that may raise returns a [result]; the file system is threaded
      through explicitly, so that the state left behind by a raising call is
      part of what is returned.
    - The only loop without a static bound, the scan of [get_next_filename],
      takes a fuel argument; [None] stands for "fuel exhausted", never for a
      Python value. *)

From Stdlib Require Import ZArith String Ascii Decimal DecimalString DecimalN.
From Stdlib Require Import Sorted.
From stdpp Require Import base option list gmap strings.

Open Scope Z_scope.

(* ===================================================================== *)
(** * Part I: the model                                                    *)
(* ===================================================================== *)

(** ** Outcomes of calls that may raise *)

Inductive result (E A : Type) : Type :=
  | Ok (a : A)
  | Raise (e : E).
Arguments Ok {E A} a.
Arguments Raise {E A} e.

(** ** File system *)

(** File contents are byte strings. *)
Abbreviation bytes := (list Byte.byte).

(** The part of the file system the program can observe: which paths exist
    and what they hold.  Every path names a file of its own; symbolic links
    are outside the model. *)
Abbreviation disk := (gmap string bytes).

(** [os.path.exists(path)] *)
Definition os_path_exists (fs : disk) (path : string) : bool :=
  match fs !! path with
  | Some _ => true
  | None => false
  end.

(** ** String formatting: [f"outputs/img_{index:04d}.png"] *)

(** The decimal digits of a non-negative integer, most significant first. *)
Definition decimal (n : Z) : string :=
  NilEmpty.string_of_uint (N.to_uint (Z.to_N n)).

Fixpoint zeros (k : nat) : string :=
  match k with
  | O => EmptyString
  | S k' => String "0" (zeros k')
  end.

(** Left padding with ["0"] up to a minimal width; longer strings are kept
    as they are. *)
Definition zfill (width : nat) (s : string) : string :=
  zeros (width - String.length s) +:+ s.

(** The format specification [04d]: decimal, zero-padded to four characters,
    the sign (if any) counted in the width and written before the padding. *)
Definition format_04d (index : Z) : string :=
  if index <? 0 then String "-" (zfill 3 (decimal (- index)))
  else zfill 4 (decimal index).

Definition output_filename (index : Z) : string :=
  "outputs/img_" +:+ format_04d index +:+ ".png".

(** ** Filename allocator: [get_next_filename] *)

(** The [while True] loop, entered with the current value of [index].  The
    existence test is a parameter so that the loop can also be studied on
    directory states that no finite map describes. *)
Fixpoint get_next_filename_loop
    (fuel : nat) (path_exists : string → bool) (index : Z) : option string :=
  match fuel with
  | O => None
  | S fuel' =>
      let filename := output_filename index in
      if negb (path_exists filename) then Some filename
      else get_next_filename_loop fuel' path_exists (index + 1)
  end.

Definition get_next_filename (fuel : nat) (fs : disk) : option string :=
  get_next_filename_loop fuel (os_path_exists fs) 1.

(** ** Seed resolver: [randomize_seed_fn] *)

(** [MAX_SEED = np.iinfo(np.int32).max] *)
Definition MAX_SEED : Z := 2 ^ 31 - 1.

Section SeedResolver.
(** State of the global generator of Python's [random] module. *)
Context {Rng : Type}.
(** [random.randint(a, b)]: the drawn integer and the generator state
    after the draw. *)
Variable randint : Z → Z → Rng → Z * Rng.

Definition randomize_seed_fn
    (seed : Z) (randomize_seed : bool) (rng : Rng) : Z * Rng :=
  if randomize_seed then randint 0 MAX_SEED rng
  else (seed, rng).
End SeedResolver.

(** ** Generation orchestrator: [generate] *)

(** The parameters of [generate], in the order of its signature. *)
Record Request {Float : Type} : Type := mkRequest {
  prompt : string;
  negative_prompt : string;
  seed : Z;
  width : Z;
  height : Z;
  prior_num_inference_steps : Z;
  prior_guidance_scale : Float;
  decoder_num_inference_steps : Z;
  decoder_guidance_scale : Float;
  num_images_per_prompt : Z;
}.
Arguments Request : clear implicits.
Arguments mkRequest {Float}.

(** Keyword arguments of the call [prior_pipeline(...)]. *)
Record PriorCall {Float Callback : Type} : Type := mkPriorCall {
  pc_prompt : string;
  pc_height : Z;
  pc_width : Z;
  pc_num_inference_steps : Z;
  pc_negative_prompt : string;
  pc_guidance_scale : Float;
  pc_num_images_per_prompt : Z;
  pc_callback : Callback;
}.
Arguments PriorCall : clear implicits.
Arguments mkPriorCall {Float Callback}.

(** Keyword arguments of the call [decoder_pipeline(...)]. *)
Record DecoderCall {Float Embeddings : Type} : Type := mkDecoderCall {
  dc_image_embeddings : Embeddings;
  dc_prompt : string;
  dc_num_inference_steps : Z;
  dc_guidance_scale : Float;
  dc_negative_prompt : string;
  dc_output_type : string;
}.
Arguments DecoderCall : clear implicits.
Arguments mkDecoderCall {Float Embeddings}.

(** What the environment does with one [img.save(filename)]: either the file
    is written, or the call raises and leaves at most a partial file under
    that same path. *)
Inductive save_outcome (E : Type) : Type :=
  | Saved
  | SaveFailed (e : E) (partial : option bytes).
Arguments Saved {E}.
Arguments SaveFailed {E} e partial.

Section Orchestrator.
Context {Float Image Embeddings Generator Callback Exn : Type}.

(** [torch.Generator().manual_seed(seed)] *)
Variable manual_seed : Z → result Exn Generator.
(** The prior stage.  It draws from the generator it is given, which
    changes that generator's state; the state after the call is returned
    with the embeddings.  A process started without an accelerated device
    has no pipelines and the call expression raises: that is a prior stage
    that always raises. *)
Variable prior_pipeline :
  PriorCall Float Callback → Generator → result Exn (Embeddings * Generator).
(** The decoder stage, [.images] of its output. *)
Variable decoder_pipeline :
  DecoderCall Float Embeddings → Generator → result Exn (list Image * Generator).
(** The module-level preview callback handed to the prior stage. *)
Variable callback_prior : Callback.
(** PNG encoding of an image. *)
Variable to_png : Image → bytes.
(** The environment's verdict on a write. *)
Variable save_env : disk → string → Image → save_outcome Exn.

(** [img.save(filename)] *)
Definition save (img : Image) (filename : string) (fs : disk)
    : result Exn unit * disk :=
  match save_env fs filename img with
  | Saved => (Ok tt, <[filename := to_png img]> fs)
  | SaveFailed e None => (Raise e, fs)
  | SaveFailed e (Some junk) => (Raise e, <[filename := junk]> fs)
  end.

(** The loop [for img in decoder_output: ...]. *)
Fixpoint save_images (fuel : nat) (decoder_output : list Image) (fs : disk)
    : option (result Exn unit * disk) :=
  match decoder_output with
  | [] => Some (Ok tt, fs)
  | img :: rest =>
      match get_next_filename fuel fs with
      | None => None
      | Some filename =>
          match save img filename fs with
          | (Ok _, fs') => save_images fuel rest fs'
          | (Raise e, fs') => Some (Raise e, fs')
          end
      end
  end.

Definition prior_call (req : Request Float) : PriorCall Float Callback :=
  {| pc_prompt := prompt req;
     pc_height := height req;
     pc_width := width req;
     pc_num_inference_steps := prior_num_inference_steps req;
     pc_negative_prompt := negative_prompt req;
     pc_guidance_scale := prior_guidance_scale req;
     pc_num_images_per_prompt := num_images_per_prompt req;
     pc_callback := callback_prior |}.

Definition decoder_call (req : Request Float) (image_embeddings : Embeddings)
    : DecoderCall Float Embeddings :=
  {| dc_image_embeddings := image_embeddings;
     dc_prompt := prompt req;
     dc_num_inference_steps := decoder_num_inference_steps req;
     dc_guidance_scale := decoder_guidance_scale req;
     dc_negative_prompt := negative_prompt req;
     dc_output_type := "pil" |}.

(** [generate]: the value it yields (its single [yield]) or the exception
    that escapes it, with the file system it leaves behind. *)
Definition generate (fuel : nat) (req : Request Float) (fs : disk)
    : option (result Exn (list Image) * disk) :=
  match manual_seed (seed req) with
  | Raise e => Some (Raise e, fs)
  | Ok generator =>
      match prior_pipeline (prior_call req) generator with
      | Raise e => Some (Raise e, fs)
      | Ok (image_embeddings, generator) =>
          match decoder_pipeline (decoder_call req image_embeddings) generator with
          | Raise e => Some (Raise e, fs)
          | Ok (decoder_output, _) =>
              match save_images fuel decoder_output fs with
              | None => None
              | Some (Raise e, fs') => Some (Raise e, fs')
              | Some (Ok _, fs') => Some (Ok decoder_output, fs')
              end
          end
      end
  end.
End Orchestrator.

(** ** Interactive session frontend: [create_demo] *)

(** A [gr.Slider] as configured by the program. *)
Record Slider : Type := mkSlider {
  minimum : Z;
  maximum : Z;
  step : Z;
  value : Z;
}.

(** The width and height sliders; [MAX_IMAGE_SIZE] is read from the
    environment once at startup (default 2048). *)
Definition width_slider (MAX_IMAGE_SIZE : Z) : Slider :=
  {| minimum := 1024; maximum := MAX_IMAGE_SIZE; step := 512; value := 1024 |}.

Definition height_slider (MAX_IMAGE_SIZE : Z) : Slider :=
  {| minimum := 1024; maximum := MAX_IMAGE_SIZE; step := 512; value := 1024 |}.

(** A value lies between the configured bounds of a slider. *)
Definition within_bounds (s : Slider) (v : Z) : bool :=
  (minimum s <=? v) && (v <=? maximum s).

(** The values of the input components of an event: the list [inputs] of
    [create_demo] together with the randomize checkbox. *)
Record Submission {Float : Type} : Type := mkSubmission {
  in_prompt : string;
  in_negative_prompt : string;
  in_seed : Z;
  in_randomize_seed : bool;
  in_width : Z;
  in_height : Z;
  in_prior_num_inference_steps : Z;
  in_prior_guidance_scale : Float;
  in_decoder_num_inference_steps : Z;
  in_decoder_guidance_scale : Float;
  in_num_images_per_prompt : Z;
}.
Arguments Submission : clear implicits.
Arguments mkSubmission {Float}.

Section Frontend.
Context {Float Image Embeddings Generator Callback Exn Rng : Type}.
Variable randint : Z → Z → Rng → Z * Rng.
Variable manual_seed : Z → result Exn Generator.
Variable prior_pipeline :
  PriorCall Float Callback → Generator → result Exn (Embeddings * Generator).
Variable decoder_pipeline :
  DecoderCall Float Embeddings → Generator → result Exn (list Image * Generator).
Variable callback_prior : Callback.
Variable to_png : Image → bytes.
Variable save_env : disk → string → Image → save_outcome Exn.

(** The two functions bound to the run button, to submitting the prompt
    and to submitting the negative prompt, applied one after the other to
    the values they are handed: first [randomize_seed_fn] on the seed and
    the checkbox, its result replacing the seed; then [generate] on
    [inputs].  What the UI framework does with the values a client sends
    before it hands them over is not part of these two definitions: it is
    the parameter [preprocess_inputs] of [generate_event] below. *)
Definition run_request (sub : Submission Float) (rng : Rng)
    : Request Float * Rng :=
  let '(seed', rng') :=
    randomize_seed_fn randint (in_seed sub) (in_randomize_seed sub) rng in
  ({| prompt := in_prompt sub;
      negative_prompt := in_negative_prompt sub;
      seed := seed';
      width := in_width sub;
      height := in_height sub;
      prior_num_inference_steps := in_prior_num_inference_steps sub;
      prior_guidance_scale := in_prior_guidance_scale sub;
      decoder_num_inference_steps := in_decoder_num_inference_steps sub;
      decoder_guidance_scale := in_decoder_guidance_scale sub;
      num_images_per_prompt := in_num_images_per_prompt sub |}, rng').

Definition run (fuel : nat) (sub : Submission Float) (rng : Rng) (fs : disk)
    : option (result Exn (list Image) * disk) * Rng :=
  let '(req, rng') := run_request sub rng in
  (generate manual_seed prior_pipeline decoder_pipeline callback_prior
     to_png save_env fuel req fs, rng').
End Frontend.

(** ** The framework's step before [generate] is called *)

Section Dispatch.
Context {Float Image Embeddings Generator Callback Exn : Type}.
(** What the UI framework (gradio) does with the values a client sends for
    the input components of an event, before it calls the bound function:
    the values it hands to the function, or the error it raises in place of
    the call.  This is the framework's code, not the program's; it stays a
    parameter. *)
Variable preprocess_inputs : Submission Float → result Exn (Submission Float).
Variable manual_seed : Z → result Exn Generator.
Variable prior_pipeline :
  PriorCall Float Callback → Generator → result Exn (Embeddings * Generator).
Variable decoder_pipeline :
  DecoderCall Float Embeddings → Generator → result Exn (list Image * Generator).
Variable callback_prior : Callback.
Variable to_png : Image → bytes.
Variable save_env : disk → string → Image → save_outcome Exn.
(** The float literals [4.0] and [0.0] in the signature of [generate]. *)
Variable float_4_0 : Float.
Variable float_0_0 : Float.

(** The list [inputs] against the parameters of [generate], position by
    position. *)
Definition generate_arguments (sub : Submission Float) : Request Float :=
  {| prompt := in_prompt sub;
     negative_prompt := in_negative_prompt sub;
     seed := in_seed sub;
     width := in_width sub;
     height := in_height sub;
     prior_num_inference_steps := in_prior_num_inference_steps sub;
     prior_guidance_scale := in_prior_guidance_scale sub;
     decoder_num_inference_steps := in_decoder_num_inference_steps sub;
     decoder_guidance_scale := in_decoder_guidance_scale sub;
     num_images_per_prompt := in_num_images_per_prompt sub |}.

(** The event [.then(fn=generate, inputs=inputs, outputs=result)], the only
    place where the three chains of [create_demo] call [generate], from the
    values the client sends. *)
Definition generate_event (fuel : nat) (payload : Submission Float) (fs : disk)
    : option (result Exn (list Image) * disk) :=
  match preprocess_inputs payload with
  | Raise e => Some (Raise e, fs)
  | Ok sub =>
      generate manual_seed prior_pipeline decoder_pipeline callback_prior
        to_png save_env fuel (generate_arguments sub) fs
  end.

(** [generate(prompt)], every other parameter at the default of the
    signature. *)
Definition generate_defaults (prompt : string) : Request Float :=
  {| prompt := prompt;
     negative_prompt := "";
     seed := 0;
     width := 1024;
     height := 1024;
     prior_num_inference_steps := 60;
     prior_guidance_scale := float_4_0;
     decoder_num_inference_steps := 12;
     decoder_guidance_scale := float_0_0;
     num_images_per_prompt := 1 |}.

(** The call made for an entry of [examples]:
    [gr.Examples(inputs=prompt, fn=generate)]. *)
Definition example_event (fuel : nat) (prompt : string) (fs : disk)
    : option (result Exn (list Image) * disk) :=
  generate manual_seed prior_pipeline decoder_pipeline callback_prior
    to_png save_env fuel (generate_defaults prompt) fs.
End Dispatch.

(** ** Module-level state: the pipelines and the preview callback *)

(** A module-level name: assigned, or never assigned. *)
Inductive binding (A : Type) : Type :=
  | Unbound
  | Bound (a : A).
Arguments Unbound {A}.
Arguments Bound {A} a.

(** [PREVIEW_IMAGES = True] *)
Definition PREVIEW_IMAGES : bool := true.

(** The names [prior_pipeline], [decoder_pipeline] and [callback_prior] after
    the module body has run; [None] is Python's [None]. *)
Record Globals {Float Image Embeddings Generator Previewer Exn : Type}
    : Type := mkGlobals {
  g_prior_pipeline :
    option (PriorCall Float (option Previewer) → Generator →
            result Exn (Embeddings * Generator));
  g_decoder_pipeline :
    option (DecoderCall Float Embeddings → Generator →
            result Exn (list Image * Generator));
  g_callback_prior : binding (option Previewer);
}.
Arguments Globals : clear implicits.
Arguments mkGlobals {Float Image Embeddings Generator Previewer Exn}.

Section ModuleState.
Context {Float Image Embeddings Generator Previewer Exn : Type}.
(** The exceptions the interpreter raises for a name that was never
    assigned and for calling [None]. *)
Variable NameError : string → Exn.
Variable TypeError : string → Exn.
Variable manual_seed : Z → result Exn Generator.
Variable to_png : Image → bytes.
Variable save_env : disk → string → Image → save_outcome Exn.

(** The branch on [torch.cuda.is_available()] of the module body, given the
    pipelines [from_pretrained] loads and the callback built around the
    previewer. *)
Definition module_globals (cuda_is_available : bool)
    (loaded_prior : PriorCall Float (option Previewer) → Generator →
                    result Exn (Embeddings * Generator))
    (loaded_decoder : DecoderCall Float Embeddings → Generator →
                      result Exn (list Image * Generator))
    (previewer_callback : Previewer)
    : Globals Float Image Embeddings Generator Previewer Exn :=
  if cuda_is_available then
    {| g_prior_pipeline := Some loaded_prior;
       g_decoder_pipeline := Some loaded_decoder;
       g_callback_prior :=
         Bound (if PREVIEW_IMAGES then Some previewer_callback else None) |}
  else
    {| g_prior_pipeline := None;
       g_decoder_pipeline := None;
       g_callback_prior := Unbound |}.

(** Evaluation of the call [prior_pipeline(..., callback=callback_prior)]:
    the arguments are evaluated before the call is attempted, so a missing
    [callback_prior] is reported before a [prior_pipeline] that is [None]. *)
Definition call_prior_pipeline
    (globals : Globals Float Image Embeddings Generator Previewer Exn)
    (c : PriorCall Float (binding (option Previewer))) (generator : Generator)
    : result Exn (Embeddings * Generator) :=
  match pc_callback c with
  | Unbound => Raise (NameError "name 'callback_prior' is not defined")
  | Bound callback =>
      match g_prior_pipeline globals with
      | None => Raise (TypeError "'NoneType' object is not callable")
      | Some pipeline =>
          pipeline
            {| pc_prompt := pc_prompt c;
               pc_height := pc_height c;
               pc_width := pc_width c;
               pc_num_inference_steps := pc_num_inference_steps c;
               pc_negative_prompt := pc_negative_prompt c;
               pc_guidance_scale := pc_guidance_scale c;
               pc_num_images_per_prompt := pc_num_images_per_prompt c;
               pc_callback := callback |}
            generator
      end
  end.

(** Evaluation of the call [decoder_pipeline(...)]. *)
Definition call_decoder_pipeline
    (globals : Globals Float Image Embeddings Generator Previewer Exn)
    (c : DecoderCall Float Embeddings) (generator : Generator)
    : result Exn (list Image * Generator) :=
  match g_decoder_pipeline globals with
  | None => Raise (TypeError "'NoneType' object is not callable")
  | Some pipeline => pipeline c generator
  end.

(** [generate] in a process whose module body left [globals]. *)
Definition generate_with
    (globals : Globals Float Image Embeddings Generator Previewer Exn)
    (fuel : nat) (req : Request Float) (fs : disk)
    : option (result Exn (list Image) * disk) :=
  generate manual_seed (call_prior_pipeline globals)
    (call_decoder_pipeline globals) (g_callback_prior globals)
    to_png save_env fuel req fs.
End ModuleState.

(** ** Vocabulary of the properties *)

(** Reading a formatted index back: the digits as a number, leading zeros
    ignored. *)
Definition read_index (s : string) : option N :=
  N.of_uint <$> NilEmpty.uint_of_string s.

(** The names of the indices [1 .. n]. *)
Definition first_filenames (n : nat) : list string :=
  (λ k : nat, output_filename (Z.of_nat (S k))) <$> seq 0 n.

(** Writing a sequence of files, first to last. *)
Definition write_files (files : list (string * bytes)) (fs : disk) : disk :=
  foldl (λ acc file, <[file.1 := file.2]> acc) fs files.

(** What a failed write leaves behind. *)
Definition leftover (partial : option bytes) (filename : string) (fs : disk)
    : disk :=
  match partial with
  | None => fs
  | Some junk => <[filename := junk]> fs
  end.

(** ** Stand-ins for the external collaborators

    Small executable instances of the model's parameters, on which the
    definitions above can be run. *)

Module Stub.
(** A linear congruential generator in the place of [random]'s state. *)
Definition randint (a b : Z) (rng : Z) : Z * Z :=
  (a + rng mod (b - a + 1), (1103515245 * rng + 12345) mod 2 ^ 31).

(** A torch generator reduced to a counter; seeds outside the unsigned
    64-bit range are refused. *)
Definition manual_seed (s : Z) : result string Z :=
  if (0 <=? s) && (s <? 2 ^ 64) then Ok s
  else Raise "RuntimeError: Overflow when unpacking long"%string.

(** A prior stage that draws one number per requested image and refuses
    non-positive dimensions. *)
Definition prior_pipeline (c : PriorCall Z unit) (g : Z)
    : result string (list Z * Z) :=
  if (pc_width c <=? 0) || (pc_height c <=? 0) then
    Raise "ValueError: invalid resolution"%string
  else
    let n := Z.to_nat (pc_num_images_per_prompt c) in
    Ok ((λ k : nat, (g + Z.of_nat k) mod 256) <$> seq 0 n, g + Z.of_nat n).

(** A decoder stage that draws one number per embedding and refuses an
    empty step count. *)
Definition decoder_pipeline (c : DecoderCall Z (list Z)) (g : Z)
    : result string (list Z * Z) :=
  if dc_num_inference_steps c <=? 0 then
    Raise "ValueError: no inference steps"%string
  else
    Ok ((λ e : Z, (e + g) mod 256) <$> dc_image_embeddings c,
        g + Z.of_nat (length (dc_image_embeddings c))).

(** One-byte "PNG" files. *)
Definition to_png (img : Z) : bytes :=
  match Byte.of_N (Z.to_N img) with
  | Some b => [b]
  | None => []
  end.

(** An environment in which every write succeeds. *)
Definition save_always (fs : disk) (filename : string) (img : Z)
    : save_outcome string := Saved.

(** An environment whose disk is full once it holds two files. *)
Definition save_until_full (fs : disk) (filename : string) (img : Z)
    : save_outcome string :=
  if decide (size fs < 2)%nat then Saved
  else SaveFailed "OSError: No space left on device"%string None.

Definition request (seed width height n : Z) : Request Z :=
  {| prompt := "An astronaut riding a green horse";
     negative_prompt := "";
     seed := seed;
     width := width;
     height := height;
     prior_num_inference_steps := 30;
     prior_guidance_scale := 4;
     decoder_num_inference_steps := 12;
     decoder_guidance_scale := 0;
     num_images_per_prompt := n |}.

Definition submission (seed : Z) (randomize : bool) (width height n : Z)
    : Submission Z :=
  {| in_prompt := "An astronaut riding a green horse";
     in_negative_prompt := "";
     in_seed := seed;
     in_randomize_seed := randomize;
     in_width := width;
     in_height := height;
     in_prior_num_inference_steps := 30;
     in_prior_guidance_scale := 4;
     in_decoder_num_inference_steps := 12;
     in_decoder_guidance_scale := 0;
     in_num_images_per_prompt := n |}.

Definition generate (save_env : disk → string → Z → save_outcome string) :=
  generate manual_seed prior_pipeline decoder_pipeline tt to_png save_env.
(** A previewer-aware prior stage: the stub stage, blind to the callback. *)
Definition loaded_prior (c : PriorCall Z (option unit)) (g : Z)
    : result string (list Z * Z) :=
  prior_pipeline
    {| pc_prompt := pc_prompt c;
       pc_height := pc_height c;
       pc_width := pc_width c;
       pc_num_inference_steps := pc_num_inference_steps c;
       pc_negative_prompt := pc_negative_prompt c;
       pc_guidance_scale := pc_guidance_scale c;
       pc_num_images_per_prompt := pc_num_images_per_prompt c;
       pc_callback := tt |} g.

Definition name_error (msg : string) : string := "NameError: " +:+ msg.
Definition type_error (msg : string) : string := "TypeError: " +:+ msg.

(** A framework that refuses a width or a height outside the bounds of its
    slider and hands every other value over as it came. *)
Definition preprocess_inputs (MAX_IMAGE_SIZE : Z) (payload : Submission Z)
    : result string (Submission Z) :=
  if within_bounds (width_slider MAX_IMAGE_SIZE) (in_width payload)
     && within_bounds (height_slider MAX_IMAGE_SIZE) (in_height payload)
  then Ok payload
  else Raise "Error: value outside the range of its slider"%string.
End Stub.

(* ===================================================================== *)
(** * Part II: properties                                                  *)
(* ===================================================================== *)

(** ** Formatting *)

Example format_04d_1 : format_04d 1 = "0001"%string.
Proof. reflexivity. Qed.

Example format_04d_9999 : format_04d 9999 = "9999"%string.
Proof. reflexivity. Qed.

Example format_04d_10000 : format_04d 10000 = "10000"%string.
Proof. reflexivity. Qed.

Example format_04d_neg : format_04d (-1) = "-001"%string.
Proof. reflexivity. Qed.

Example output_filename_42 : output_filename 42 = "outputs/img_0042.png"%string.
Proof. reflexivity. Qed.

Lemma append_nil_l (s : string) : "" +:+ s = s.
Proof. reflexivity. Qed.

Lemma append_cons (c : ascii) (s t : string) :
  String c s +:+ t = String c (s +:+ t).
Proof. reflexivity. Qed.

Lemma uint_of_string_zeros k s :
  NilEmpty.uint_of_string (zeros k +:+ s)
  = Nat.iter k D0 <$> NilEmpty.uint_of_string s.
Proof.
  induction k as [|k IH].
  - cbn [zeros]. rewrite append_nil_l.
    destruct (NilEmpty.uint_of_string s); reflexivity.
  - cbn [zeros]. rewrite append_cons. cbn [NilEmpty.uint_of_string].
    rewrite IH. destruct (NilEmpty.uint_of_string s); reflexivity.
Qed.

Lemma of_uint_leading_zeros k d : N.of_uint (Nat.iter k D0 d) = N.of_uint d.
Proof. induction k as [|k IH]; [done|]. simpl. exact IH. Qed.

Lemma read_index_zfill w n : read_index (zfill w (decimal n)) = Some (Z.to_N n).
Proof.
  unfold read_index, zfill, decimal.
  rewrite uint_of_string_zeros, NilEmpty.usu. simpl.
  by rewrite of_uint_leading_zeros, DecimalN.Unsigned.of_to.
Qed.

Lemma format_04d_inj i j :
  0 ≤ i → 0 ≤ j → format_04d i = format_04d j → i = j.
Proof.
  intros Hi Hj. unfold format_04d.
  destruct (Z.ltb_spec i 0); [lia|]. destruct (Z.ltb_spec j 0); [lia|].
  intros Heq. apply (f_equal read_index) in Heq.
  rewrite !read_index_zfill in Heq. injection Heq. lia.
Qed.

Lemma length_append (s t : string) :
  String.length (s +:+ t) = (String.length s + String.length t)%nat.
Proof.
  induction s as [|c s IH]; [done|].
  rewrite append_cons. cbn [String.length]. by rewrite IH.
Qed.

Lemma append_inj_l (s1 s2 t : string) : s1 +:+ t = s2 +:+ t → s1 = s2.
Proof.
  revert s2. induction s1 as [|c s1 IH]; intros [|c' s2] Heq.
  - done.
  - apply (f_equal String.length) in Heq.
    rewrite !length_append in Heq. cbn [String.length] in Heq. lia.
  - apply (f_equal String.length) in Heq.
    rewrite !length_append in Heq. cbn [String.length] in Heq. lia.
  - rewrite !append_cons in Heq. injection Heq as -> Heq.
    f_equal. by apply IH.
Qed.

Lemma output_filename_inj i j :
  0 ≤ i → 0 ≤ j → output_filename i = output_filename j → i = j.
Proof.
  intros Hi Hj Heq. unfold output_filename in Heq.
  apply String.app_inj in Heq. apply append_inj_l in Heq.
  by apply format_04d_inj.
Qed.

(** ** The scan of [get_next_filename] *)

Lemma os_path_exists_false fs path :
  os_path_exists fs path = false ↔ fs !! path = None.
Proof. unfold os_path_exists. destruct (fs !! path); naive_solver. Qed.

Lemma os_path_exists_true fs path :
  os_path_exists fs path = true ↔ is_Some (fs !! path).
Proof.
  unfold os_path_exists. destruct (fs !! path) eqn:E; split; done.
Qed.

(** One unfolding of the loop. *)
Lemma get_next_filename_loop_step fuel path_exists index :
  get_next_filename_loop (S fuel) path_exists index
  = if path_exists (output_filename index)
    then get_next_filename_loop fuel path_exists (index + 1)
    else Some (output_filename index).
Proof. simpl. by destruct (path_exists (output_filename index)). Qed.

(** Whatever the loop returns is the name of the first index at or after its
    starting point whose file does not exist. *)
Lemma get_next_filename_loop_sound fuel path_exists index filename :
  get_next_filename_loop fuel path_exists index = Some filename →
  ∃ j, index ≤ j ∧ filename = output_filename j ∧
       path_exists (output_filename j) = false ∧
       ∀ k, index ≤ k < j → path_exists (output_filename k) = true.
Proof.
  revert index. induction fuel as [|fuel IH]; intros index; [done|].
  rewrite get_next_filename_loop_step.
  destruct (path_exists (output_filename index)) eqn:E.
  - intros (j & Hj & -> & Hfree & Hbelow)%IH.
    exists j. repeat split; [lia|done|].
    intros k Hk. destruct (decide (k = index)) as [->|]; [done|].
    apply Hbelow. lia.
  - intros [= <-]. exists index. repeat split; [lia|done|]. intros k ?. lia.
Qed.

(** The loop reaches the first free index as soon as the fuel covers the
    distance to it. *)
Lemma get_next_filename_loop_complete path_exists j fuel index :
  index ≤ j →
  path_exists (output_filename j) = false →
  (∀ k, index ≤ k < j → path_exists (output_filename k) = true) →
  (Z.to_nat (j - index) < fuel)%nat →
  get_next_filename_loop fuel path_exists index = Some (output_filename j).
Proof.
  revert index. induction fuel as [|fuel IH]; intros index Hle Hfree Hbelow Hfuel;
    [lia|].
  rewrite get_next_filename_loop_step.
  destruct (decide (index = j)) as [->|Hne].
  - by rewrite Hfree.
  - rewrite Hbelow by lia. apply IH; [lia|done| |lia].
    intros k ?. apply Hbelow. lia.
Qed.

(** If every index from the starting point on is taken, no amount of fuel
    makes the loop return. *)
Lemma get_next_filename_loop_diverges path_exists fuel index :
  (∀ k, index ≤ k → path_exists (output_filename k) = true) →
  get_next_filename_loop fuel path_exists index = None.
Proof.
  revert index. induction fuel as [|fuel IH]; intros index Hall; [done|].
  rewrite get_next_filename_loop_step, Hall by lia.
  apply IH. intros k ?. apply Hall. lia.
Qed.

(** Below a free index there is a first free index. *)
Lemma first_free_index (path_exists : string → bool) index i :
  index ≤ i →
  path_exists (output_filename i) = false →
  ∃ j, index ≤ j ≤ i ∧ path_exists (output_filename j) = false ∧
       ∀ k, index ≤ k < j → path_exists (output_filename k) = true.
Proof.
  intros Hle. remember (Z.to_nat (i - index)) as d eqn:Hd.
  revert index Hle Hd. induction d as [|d IH]; intros index Hle Hd Hfree.
  - assert (i = index) as -> by lia. exists index.
    repeat split; [lia|lia|done|]. intros k ?. lia.
  - destruct (path_exists (output_filename index)) eqn:E.
    + destruct (IH (index + 1)) as (j & Hj & Hjfree & Hbelow); [lia|lia|done|].
      exists j. repeat split; [lia|lia|done|].
      intros k Hk. destruct (decide (k = index)) as [->|]; [done|].
      apply Hbelow. lia.
    + exists index. repeat split; [lia|lia|done|]. intros k ?. lia.
Qed.

Lemma first_filenames_NoDup n : NoDup (first_filenames n).
Proof.
  unfold first_filenames. apply NoDup_fmap_2_strong; [|apply NoDup_seq].
  intros a b _ _ Heq. apply output_filename_inj in Heq; lia.
Qed.

(** A finite directory cannot hold a file for every index: one of the first
    [size fs + 1] names is free. *)
Lemma free_index_exists (fs : disk) :
  ∃ i, 1 ≤ i ≤ Z.of_nat (size fs) + 1 ∧ fs !! output_filename i = None.
Proof.
  destruct (decide (Forall (λ f, is_Some (fs !! f)) (first_filenames (S (size fs)))))
    as [Hall|Hex].
  - exfalso.
    assert (list_to_set (first_filenames (S (size fs))) ⊆ dom fs) as Hsub.
    { intros f Hf%elem_of_list_to_set. apply elem_of_dom.
      by eapply (proj1 (Forall_forall _ _) Hall). }
    apply subseteq_size in Hsub.
    rewrite size_list_to_set in Hsub by apply first_filenames_NoDup.
    rewrite size_dom in Hsub. unfold first_filenames in Hsub.
    rewrite length_fmap, length_seq in Hsub. lia.
  - apply not_Forall_Exists in Hex; [|intros f; apply _].
    apply Exists_exists in Hex as (f & Hf & Hnone).
    unfold first_filenames in Hf. apply list_elem_of_fmap in Hf as (k & -> & Hk).
    apply elem_of_seq in Hk. exists (Z.of_nat (S k)). split; [lia|].
    by apply eq_None_not_Some.
Qed.

(** ** [get_next_filename] on a finite directory *)

(** The returned path does not exist. *)
Lemma get_next_filename_fresh fuel (fs : disk) filename :
  get_next_filename fuel fs = Some filename → fs !! filename = None.
Proof.
  intros (j & _ & -> & Hfree & _)%get_next_filename_loop_sound.
  by apply os_path_exists_false.
Qed.

(** With more fuel than there are files the scan returns, and it returns the
    name of the lowest free index. *)
Lemma get_next_filename_returns fuel (fs : disk) :
  (size fs < fuel)%nat →
  ∃ j, 1 ≤ j ≤ Z.of_nat (size fs) + 1 ∧
       get_next_filename fuel fs = Some (output_filename j) ∧
       fs !! output_filename j = None ∧
       ∀ k, 1 ≤ k < j → is_Some (fs !! output_filename k).
Proof.
  intros Hfuel. destruct (free_index_exists fs) as (i & Hi & Hnone).
  apply os_path_exists_false in Hnone.
  destruct (first_free_index (os_path_exists fs) 1 i) as (j & Hj & Hfree & Hbelow);
    [lia|done|].
  exists j. repeat split; [lia|lia| | |].
  - apply get_next_filename_loop_complete; [lia|done|done|lia].
  - by apply os_path_exists_false.
  - intros k Hk. apply os_path_exists_true. by apply Hbelow.
Qed.

(** ** Claims about the filename allocator *)

(** C2: in a directory that holds [img_0001.png] and [img_0003.png] but not
    [img_0002.png], the allocator returns [outputs/img_0002.png]: it fills
    the first gap instead of continuing after the highest index. *)
Theorem get_next_filename_fills_first_gap (fuel : nat) (fs : disk) :
  os_path_exists fs "outputs/img_0001.png" = true →
  os_path_exists fs "outputs/img_0003.png" = true →
  os_path_exists fs "outputs/img_0002.png" = false →
  (2 ≤ fuel)%nat →
  get_next_filename fuel fs = Some "outputs/img_0002.png"%string.
Proof.
  intros H1 _ H2 Hfuel. unfold get_next_filename.
  apply (get_next_filename_loop_complete _ 2); [lia|exact H2| |lia].
  intros k Hk. assert (k = 1) as -> by lia. exact H1.
Qed.

Lemma get_next_filename_fills_first_gap_witness :
  get_next_filename 2
    (<["outputs/img_0003.png"%string := []]>
       (<["outputs/img_0001.png"%string := []]> ∅))
  = Some "outputs/img_0002.png"%string.
Proof.
  apply get_next_filename_fills_first_gap;
    [vm_compute; reflexivity | vm_compute; reflexivity
    | vm_compute; reflexivity | lia].
Defined.

(** C6: starting from an empty output directory, three successive
    allocations, each followed by a write to the returned path, return
    [outputs/img_0001.png], [outputs/img_0002.png], [outputs/img_0003.png]
    in that order. *)
Theorem get_next_filename_first_three
    (fuel : nat) (fs : disk) (c1 c2 c3 : bytes) :
  (∀ path, String.prefix "outputs/" path = true → fs !! path = None) →
  (3 ≤ fuel)%nat →
  let f1 := "outputs/img_0001.png"%string in
  let f2 := "outputs/img_0002.png"%string in
  let f3 := "outputs/img_0003.png"%string in
  let fs1 := <[f1 := c1]> fs in
  let fs2 := <[f2 := c2]> fs1 in
  get_next_filename fuel fs = Some f1 ∧
  get_next_filename fuel fs1 = Some f2 ∧
  get_next_filename fuel fs2 = Some f3.
Proof.
  intros Hempty Hfuel f1 f2 f3 fs1 fs2.
  assert (fs !! f1 = None) as E1 by (by apply Hempty).
  assert (fs !! f2 = None) as E2 by (by apply Hempty).
  assert (fs !! f3 = None) as E3 by (by apply Hempty).
  repeat split; unfold get_next_filename.
  - apply (get_next_filename_loop_complete _ 1); [lia| |intros k ?; lia|lia].
    by apply os_path_exists_false.
  - apply (get_next_filename_loop_complete _ 2); [lia| | |lia].
    + apply os_path_exists_false. subst fs1. by rewrite lookup_insert_ne.
    + intros k Hk. assert (k = 1) as -> by lia.
      apply os_path_exists_true. subst fs1.
      change (output_filename 1) with f1. rewrite lookup_insert_eq. by eexists.
  - apply (get_next_filename_loop_complete _ 3); [lia| | |lia].
    + apply os_path_exists_false. subst fs2 fs1.
      by rewrite !lookup_insert_ne.
    + intros k Hk. apply os_path_exists_true. subst fs2 fs1.
      assert (k = 1 ∨ k = 2) as [-> | ->] by lia.
      * change (output_filename 1) with f1.
        rewrite lookup_insert_ne by done. rewrite lookup_insert_eq. by eexists.
      * change (output_filename 2) with f2.
        rewrite lookup_insert_eq. by eexists.
Qed.

Lemma get_next_filename_first_three_witness :
  get_next_filename 3 ∅ = Some "outputs/img_0001.png"%string ∧
  get_next_filename 3 (<["outputs/img_0001.png"%string := []]> ∅)
  = Some "outputs/img_0002.png"%string ∧
  get_next_filename 3
    (<["outputs/img_0002.png"%string := []]>
       (<["outputs/img_0001.png"%string := []]> ∅))
  = Some "outputs/img_0003.png"%string.
Proof.
  apply (get_next_filename_first_three 3 ∅ [] [] []); [|lia].
  intros path _. apply lookup_empty.
Defined.

(** C10: if some index [i ≥ 1] has no file, the scan returns once the fuel
    covers the first free index [j ≤ i], whose name it returns; every finite
    directory has such an index; and if every index has a file, no amount of
    fuel makes the scan return. *)
Theorem get_next_filename_terminates :
  (∀ (path_exists : string → bool) (i : Z),
     1 ≤ i → path_exists (output_filename i) = false →
     ∃ j, 1 ≤ j ≤ i ∧
          (∀ k, 1 ≤ k < j → path_exists (output_filename k) = true) ∧
          ∀ fuel, (Z.to_nat j ≤ fuel)%nat →
            get_next_filename_loop fuel path_exists 1 = Some (output_filename j))
  ∧ (∀ fs : disk,
       ∃ i, 1 ≤ i ∧ os_path_exists fs (output_filename i) = false)
  ∧ (∀ (fs : disk) (fuel : nat), (size fs < fuel)%nat →
       ∃ filename, get_next_filename fuel fs = Some filename)
  ∧ (∀ path_exists : string → bool,
       (∀ i, 1 ≤ i → path_exists (output_filename i) = true) →
       ∀ fuel, get_next_filename_loop fuel path_exists 1 = None).
Proof.
  repeat split.
  - intros path_exists i Hi Hfree.
    destruct (first_free_index path_exists 1 i) as (j & Hj & Hjfree & Hbelow);
      [done|done|].
    exists j. repeat split; [lia|lia|done|].
    intros fuel Hfuel. apply get_next_filename_loop_complete; [lia|done|done|lia].
  - intros fs. destruct (free_index_exists fs) as (i & Hi & Hnone).
    exists i. split; [lia|]. by apply os_path_exists_false.
  - intros fs fuel Hfuel.
    destruct (get_next_filename_returns fuel fs Hfuel) as (j & _ & Hret & _).
    by eexists.
  - intros path_exists Hall fuel.
    by apply get_next_filename_loop_diverges.
Qed.

Lemma get_next_filename_terminates_witness :
  ∃ j, 1 ≤ j ≤ 3 ∧
       (∀ k, 1 ≤ k < j →
          String.eqb "outputs/img_0001.png" (output_filename k) = true) ∧
       ∀ fuel, (Z.to_nat j ≤ fuel)%nat →
         get_next_filename_loop fuel (String.eqb "outputs/img_0001.png") 1
         = Some (output_filename j).
Proof.
  destruct get_next_filename_terminates as [Hret _].
  destruct (Hret (String.eqb "outputs/img_0001.png") 3) as (j & Hj & Hbelow & Hfuel);
    [lia | vm_compute; reflexivity |].
  exists j. split; [exact Hj|]. split; [exact Hbelow|exact Hfuel].
Defined.

Example stub_generate_run :
  Stub.generate Stub.save_always 5 (Stub.request 7 1024 1024 2) ∅
  = Some (Ok [16; 17],
          <["outputs/img_0002.png"%string := [Byte.x11]]>
            (<["outputs/img_0001.png"%string := [Byte.x10]]> ∅)).
Proof. vm_compute. reflexivity. Qed.

(** ** Claims about the seed resolver *)

Section SeedResolverProperties.
Context {Rng : Type}.
Variable randint : Z → Z → Rng → Z * Rng.

(** C4: with [randomize_seed] false the resolver returns the seed it was
    given, whatever that seed is, and leaves the state of the random
    module as it found it. *)
Theorem randomize_seed_fn_identity (seed : Z) (rng : Rng) :
  randomize_seed_fn randint seed false rng = (seed, rng).
Proof. reflexivity. Qed.

(** Contract of [random.randint(a, b)]: an integer [N] with [a ≤ N ≤ b]. *)
Hypothesis randint_range :
  ∀ a b rng, a ≤ b → a ≤ (randint a b rng).1 ≤ b.

(** C5: with [randomize_seed] true the resolved seed lies in
    [[0, MAX_SEED]], where [MAX_SEED] is the largest signed 32-bit integer,
    whatever the seed passed in. *)
Theorem randomize_seed_fn_range (seed : Z) (rng : Rng) :
  MAX_SEED = 2147483647 ∧
  0 ≤ (randomize_seed_fn randint seed true rng).1 ≤ MAX_SEED.
Proof.
  split; [reflexivity|]. unfold randomize_seed_fn.
  apply randint_range. unfold MAX_SEED. lia.
Qed.
End SeedResolverProperties.

Lemma stub_randint_range (a b rng : Z) :
  a ≤ b → a ≤ (Stub.randint a b rng).1 ≤ b.
Proof.
  intros Hab. unfold Stub.randint. simpl.
  pose proof (Z.mod_pos_bound rng (b - a + 1)). lia.
Qed.

Lemma randomize_seed_fn_range_witness :
  MAX_SEED = 2147483647 ∧
  0 ≤ (randomize_seed_fn Stub.randint 42 true 123456789012).1 ≤ MAX_SEED.
Proof. apply (randomize_seed_fn_range Stub.randint stub_randint_range). Defined.

Example randomize_seed_fn_stub_draw :
  randomize_seed_fn Stub.randint 42 true 123456789012 = (1050221076, 211444413).
Proof. vm_compute. reflexivity. Qed.

(** ** Writing files *)

Lemma write_files_cons name content files (fs : disk) :
  write_files ((name, content) :: files) fs
  = write_files files (<[name := content]> fs).
Proof. reflexivity. Qed.

(** Paths that are not written keep what they held. *)
Lemma write_files_lookup_other (names : list string) (contents : list bytes)
    (fs : disk) path :
  path ∉ names →
  write_files (zip names contents) fs !! path = fs !! path.
Proof.
  revert contents fs. induction names as [|name names IH];
    intros [|content contents] fs Hnotin; try reflexivity.
  apply not_elem_of_cons in Hnotin as [Hne Hnotin].
  cbn [zip zip_with]. rewrite write_files_cons, IH by done.
  by apply lookup_insert_ne.
Qed.

(** When the names are pairwise distinct, each written path holds the
    content written under it. *)
Lemma write_files_lookup (names : list string) (contents : list bytes)
    (fs : disk) k name content :
  NoDup names →
  names !! k = Some name → contents !! k = Some content →
  write_files (zip names contents) fs !! name = Some content.
Proof.
  revert contents fs k. induction names as [|name' names IH];
    intros [|content' contents] fs [|k] Hnodup Hname Hcontent; try done.
  - injection Hname as ->. injection Hcontent as ->.
    apply NoDup_cons in Hnodup as [Hnotin _].
    cbn [zip zip_with]. rewrite write_files_cons.
    rewrite write_files_lookup_other by done. apply lookup_insert_eq.
  - apply NoDup_cons in Hnodup as [_ Hnodup].
    cbn [zip zip_with]. rewrite write_files_cons. by eapply IH.
Qed.

Lemma leftover_preserves partial filename (fs : disk) path content :
  fs !! filename = None →
  fs !! path = Some content →
  leftover partial filename fs !! path = Some content.
Proof.
  intros Hfree Hpath. destruct partial as [junk|]; [|done]. simpl.
  rewrite lookup_insert_ne; [done|]. congruence.
Qed.

(** ** The save loop and [generate] *)

Section OrchestratorProperties.
Context {Float Image Embeddings Generator Callback Exn : Type}.
Variable manual_seed : Z → result Exn Generator.
Variable prior_pipeline :
  PriorCall Float Callback → Generator → result Exn (Embeddings * Generator).
Variable decoder_pipeline :
  DecoderCall Float Embeddings → Generator → result Exn (list Image * Generator).
Variable callback_prior : Callback.
Variable to_png : Image → bytes.
Variable save_env : disk → string → Image → save_outcome Exn.

Local Abbreviation save' := (save to_png save_env).
Local Abbreviation save_images' := (save_images to_png save_env).
Local Abbreviation prior_call' := (prior_call callback_prior).
Local Abbreviation generate' :=
  (generate manual_seed prior_pipeline decoder_pipeline callback_prior
     to_png save_env).

Lemma save_images_cons fuel img rest (fs : disk) :
  save_images' fuel (img :: rest) fs
  = match get_next_filename fuel fs with
    | None => None
    | Some filename =>
        match save_env fs filename img with
        | Saved => save_images' fuel rest (<[filename := to_png img]> fs)
        | SaveFailed e partial => Some (Raise e, leftover partial filename fs)
        end
    end.
Proof.
  cbn [save_images]. destruct (get_next_filename fuel fs); [|done].
  unfold save. by destruct (save_env _ _ _) as [|e [junk|]].
Qed.

(** The loop over a concatenation: the second part runs only if the first
    part went through, on the file system the first part left. *)
Lemma save_images_app fuel imgs1 imgs2 (fs : disk) :
  save_images' fuel (imgs1 ++ imgs2) fs
  = match save_images' fuel imgs1 fs with
    | Some (Ok _, fs1) => save_images' fuel imgs2 fs1
    | other => other
    end.
Proof.
  revert fs. induction imgs1 as [|img imgs1 IH]; intros fs; [done|].
  rewrite <- app_comm_cons, !save_images_cons.
  destruct (get_next_filename fuel fs) as [filename|]; [|done].
  destruct (save_env fs filename img); [apply IH|done].
Qed.

(** What the loop did, read off its result: the names it allocated, one per
    image saved, each the allocator's answer on the file system of that
    moment; and, if it raised, the write that failed. *)
Lemma save_images_spec fuel imgs (fs : disk) r fs' :
  save_images' fuel imgs fs = Some (r, fs') →
  ∃ names : list string,
    NoDup names ∧
    (∀ name, name ∈ names → fs !! name = None) ∧
    (∀ k name, names !! k = Some name →
       get_next_filename fuel
         (write_files (take k (zip names (to_png <$> imgs))) fs) = Some name) ∧
    let fs1 := write_files (zip names (to_png <$> imgs)) fs in
    match r with
    | Ok _ => length names = length imgs ∧ fs' = fs1
    | Raise e =>
        ∃ img filename partial,
          imgs !! length names = Some img ∧
          get_next_filename fuel fs1 = Some filename ∧
          save_env fs1 filename img = SaveFailed e partial ∧
          fs' = leftover partial filename fs1
    end.
Proof.
  revert fs. induction imgs as [|img imgs IH]; intros fs.
  - intros [= <- <-]. exists []. repeat split; try done.
    + apply NoDup_nil_2.
    + intros name Hin. by apply elem_of_nil in Hin.
  - rewrite save_images_cons.
    destruct (get_next_filename fuel fs) as [filename|] eqn:Hnext; [|done].
    pose proof (get_next_filename_fresh _ _ _ Hnext) as Hfresh.
    destruct (save_env fs filename img) as [|e partial] eqn:Henv.
    + intros (names & Hnodup & Hfree & Halloc & Hres)%IH.
      assert (filename ∉ names) as Hnotin.
      { intros Hin. apply Hfree in Hin. by rewrite lookup_insert_eq in Hin. }
      exists (filename :: names). split; [by apply NoDup_cons|].
      split; [|split].
      * intros name [->|Hin]%elem_of_cons; [done|].
        specialize (Hfree name Hin).
        rewrite lookup_insert_ne in Hfree; [done|]. by intros ->.
      * intros [|k] name Hk.
        -- injection Hk as <-. exact Hnext.
        -- cbn [fmap list_fmap zip zip_with take].
           rewrite write_files_cons. by apply Halloc.
      * cbn [fmap list_fmap zip zip_with]. rewrite write_files_cons.
        destruct r as [[]|e].
        -- destruct Hres as [Hlen ->]. split; [|done]. simpl. by rewrite Hlen.
        -- exact Hres.
    + intros [= <- <-]. exists []. repeat split; try done.
      * apply NoDup_nil_2.
      * intros name Hin. by apply elem_of_nil in Hin.
      * exists img, filename, partial. by repeat split.
Qed.

(** The loop never touches a file that was there before it ran. *)
Lemma save_images_preserves fuel imgs (fs : disk) r fs' path content :
  save_images' fuel imgs fs = Some (r, fs') →
  fs !! path = Some content → fs' !! path = Some content.
Proof.
  revert fs. induction imgs as [|img imgs IH]; intros fs.
  - by intros [= <- <-].
  - rewrite save_images_cons.
    destruct (get_next_filename fuel fs) as [filename|] eqn:Hnext; [|done].
    apply get_next_filename_fresh in Hnext.
    destruct (save_env fs filename img) as [|e partial].
    + intros Hrest Hpath. apply (IH _ Hrest).
      rewrite lookup_insert_ne; [done|]. congruence.
    + intros [= <- <-] Hpath. by apply leftover_preserves.
Qed.

(** With fuel for one more index than the directory will hold at the end,
    the loop returns. *)
Lemma save_images_returns fuel imgs (fs : disk) :
  (size fs + length imgs ≤ fuel)%nat →
  ∃ r fs', save_images' fuel imgs fs = Some (r, fs').
Proof.
  revert fs. induction imgs as [|img imgs IH]; intros fs Hfuel.
  - by exists (Ok tt), fs.
  - rewrite save_images_cons. simpl in Hfuel.
    destruct (get_next_filename_returns fuel fs) as (j & _ & -> & Hfree & _);
      [lia|].
    destruct (save_env fs (output_filename j) img) as [|e partial].
    + apply IH. rewrite map_size_insert_None by done. lia.
    + by eexists _, _.
Qed.

(** If no write fails, the loop goes through. *)
Lemma save_images_succeeds fuel imgs (fs : disk) :
  (∀ fs filename img, save_env fs filename img = Saved) →
  (size fs + length imgs ≤ fuel)%nat →
  ∃ fs', save_images' fuel imgs fs = Some (Ok tt, fs').
Proof.
  intros Hsaved. revert fs. induction imgs as [|img imgs IH]; intros fs Hfuel.
  - by exists fs.
  - rewrite save_images_cons. simpl in Hfuel.
    destruct (get_next_filename_returns fuel fs) as (j & _ & -> & Hfree & _);
      [lia|].
    rewrite Hsaved. apply IH. rewrite map_size_insert_None by done. lia.
Qed.

(** [generate] once both stages have returned. *)
Lemma generate_after_stages fuel req (fs : disk) g0 emb g1 imgs g2 :
  manual_seed (seed req) = Ok g0 →
  prior_pipeline (prior_call' req) g0 = Ok (emb, g1) →
  decoder_pipeline (decoder_call req emb) g1 = Ok (imgs, g2) →
  generate' fuel req fs
  = match save_images' fuel imgs fs with
    | None => None
    | Some (Raise e, fs') => Some (Raise e, fs')
    | Some (Ok _, fs') => Some (Ok imgs, fs')
    end.
Proof. intros Hseed Hprior Hdec. unfold generate. by rewrite Hseed, Hprior, Hdec. Qed.

(** A normal return of [generate], read backwards: both stages returned,
    the decoder ran on the generator as the prior stage left it, and the
    save loop went through on the decoder's images. *)
Lemma generate_ok_inv fuel req (fs : disk) out fs' :
  generate' fuel req fs = Some (Ok out, fs') →
  ∃ g0 emb g1 g2,
    manual_seed (seed req) = Ok g0 ∧
    prior_pipeline (prior_call' req) g0 = Ok (emb, g1) ∧
    decoder_pipeline (decoder_call req emb) g1 = Ok (out, g2) ∧
    save_images' fuel out fs = Some (Ok tt, fs').
Proof.
  unfold generate.
  destruct (manual_seed (seed req)) as [g0|e] eqn:Hseed; [|done].
  destruct (prior_pipeline (prior_call' req) g0) as [[emb g1]|e] eqn:Hprior;
    [|done].
  destruct (decoder_pipeline (decoder_call req emb) g1) as [[imgs g2]|e]
    eqn:Hdec; [|done].
  destruct (save_images' fuel imgs fs) as [[[[]|e] fs1]|] eqn:Hsave; [|done|done].
  intros [= <- <-]. by exists g0, emb, g1, g2.
Qed.

(** [generate] always returns, given enough fuel: normally or by raising. *)
Lemma generate_returns req (fs : disk) :
  ∃ fuel0, ∀ fuel, (fuel0 ≤ fuel)%nat →
    ∃ r fs', generate' fuel req fs = Some (r, fs').
Proof.
  unfold generate.
  destruct (manual_seed (seed req)) as [g0|e];
    [|exists 0%nat; by eexists _, _].
  destruct (prior_pipeline (prior_call' req) g0) as [[emb g1]|e];
    [|exists 0%nat; by eexists _, _].
  destruct (decoder_pipeline (decoder_call req emb) g1) as [[imgs g2]|e];
    [|exists 0%nat; by eexists _, _].
  exists (size fs + length imgs)%nat. intros fuel Hfuel.
  destruct (save_images_returns fuel imgs fs Hfuel) as ([[]|e] & fs' & ->);
    by eexists _, _.
Qed.

(** [generate] never touches a file that was there before the call,
    whether it returns or raises. *)
Lemma generate_preserves fuel req (fs : disk) r fs' path content :
  generate' fuel req fs = Some (r, fs') →
  fs !! path = Some content → fs' !! path = Some content.
Proof.
  unfold generate.
  destruct (manual_seed (seed req)) as [g0|e]; [|by intros [= <- <-]].
  destruct (prior_pipeline (prior_call' req) g0) as [[emb g1]|e];
    [|by intros [= <- <-]].
  destruct (decoder_pipeline (decoder_call req emb) g1) as [[imgs g2]|e];
    [|by intros [= <- <-]].
  destruct (save_images' fuel imgs fs) as [[[[]|e] fs1]|] eqn:Hsave; [| |done].
  - intros [= <- <-]. by eapply save_images_preserves.
  - intros [= <- <-]. by eapply save_images_preserves.
Qed.

(** *** Claims about [generate] *)

(** C7: when the decoder stage returns [N] images and no write fails,
    [generate] yields exactly these [N] images and saves them, in batch
    order, under [N] pairwise distinct names, each the allocator's answer
    at the moment the image is saved; image [k] is on disk under name
    [k]. *)
Theorem generate_saves_each_image
    fuel req (fs : disk) g0 emb g1 imgs g2 :
  manual_seed (seed req) = Ok g0 →
  prior_pipeline (prior_call' req) g0 = Ok (emb, g1) →
  decoder_pipeline (decoder_call req emb) g1 = Ok (imgs, g2) →
  (∀ fs filename img, save_env fs filename img = Saved) →
  (size fs + length imgs ≤ fuel)%nat →
  ∃ (names : list string) (fs' : disk),
    generate' fuel req fs = Some (Ok imgs, fs') ∧
    length names = length imgs ∧
    NoDup names ∧
    (∀ name, name ∈ names → fs !! name = None) ∧
    (∀ k name, names !! k = Some name →
       get_next_filename fuel
         (write_files (take k (zip names (to_png <$> imgs))) fs) = Some name) ∧
    fs' = write_files (zip names (to_png <$> imgs)) fs ∧
    (∀ k name img, names !! k = Some name → imgs !! k = Some img →
       fs' !! name = Some (to_png img)).
Proof.
  intros Hseed Hprior Hdec Hsaved Hfuel.
  destruct (save_images_succeeds fuel imgs fs Hsaved Hfuel) as [fs' Hsave].
  destruct (save_images_spec _ _ _ _ _ Hsave)
    as (names & Hnodup & Hfree & Halloc & Hlen & ->).
  exists names, (write_files (zip names (to_png <$> imgs)) fs).
  split; [|repeat split; try done].
  - by rewrite (generate_after_stages _ _ _ _ _ _ _ _ Hseed Hprior Hdec), Hsave.
  - intros k name img Hname Himg.
    apply (write_files_lookup _ _ _ k); [done|done|].
    by rewrite list_lookup_fmap, Himg.
Qed.

(** C8: the path the allocator returns does not exist when it is returned,
    so writing to it leaves every existing file as it was; and [generate],
    whether it returns or raises, leaves every file that existed before
    the call in place with its content. *)
Theorem allocated_path_is_fresh (fs : disk) :
  (∀ fuel, (size fs < fuel)%nat →
     ∃ filename, get_next_filename fuel fs = Some filename) ∧
  (∀ fuel filename, get_next_filename fuel fs = Some filename →
     os_path_exists fs filename = false ∧
     ∀ new path content, fs !! path = Some content →
       <[filename := new]> fs !! path = Some content) ∧
  (∀ fuel req r fs', generate' fuel req fs = Some (r, fs') →
     ∀ path content, fs !! path = Some content →
       fs' !! path = Some content).
Proof.
  split; [|split].
  - intros fuel Hfuel.
    destruct (get_next_filename_returns fuel fs Hfuel) as (j & _ & Hret & _).
    by eexists.
  - intros fuel filename Hnext%get_next_filename_fresh.
    split; [by apply os_path_exists_false|].
    intros new path content Hpath.
    rewrite lookup_insert_ne; [done|]. congruence.
  - intros fuel req r fs' Hgen path content Hpath.
    by eapply generate_preserves.
Qed.

(** C9: an error raised by the generator construction, by the prior stage,
    by the decoder stage or by a write is what [generate] raises; when a
    write fails, the images saved before it are on disk under their names,
    and every file that existed before the call is still there. *)
Theorem generate_errors_propagate fuel req (fs : disk) e :
  (manual_seed (seed req) = Raise e →
     generate' fuel req fs = Some (Raise e, fs)) ∧
  (∀ g0, manual_seed (seed req) = Ok g0 →
     prior_pipeline (prior_call' req) g0 = Raise e →
     generate' fuel req fs = Some (Raise e, fs)) ∧
  (∀ g0 emb g1, manual_seed (seed req) = Ok g0 →
     prior_pipeline (prior_call' req) g0 = Ok (emb, g1) →
     decoder_pipeline (decoder_call req emb) g1 = Raise e →
     generate' fuel req fs = Some (Raise e, fs)) ∧
  (∀ g0 emb g1 g2 saved img rest fs1 filename partial,
     manual_seed (seed req) = Ok g0 →
     prior_pipeline (prior_call' req) g0 = Ok (emb, g1) →
     decoder_pipeline (decoder_call req emb) g1 = Ok (saved ++ img :: rest, g2) →
     save_images' fuel saved fs = Some (Ok tt, fs1) →
     get_next_filename fuel fs1 = Some filename →
     save_env fs1 filename img = SaveFailed e partial →
     ∃ (names : list string) (fs' : disk),
       generate' fuel req fs = Some (Raise e, fs') ∧
       fs' = leftover partial filename fs1 ∧
       length names = length saved ∧
       NoDup names ∧
       (∀ k name img', names !! k = Some name → saved !! k = Some img' →
          fs !! name = None ∧ fs' !! name = Some (to_png img')) ∧
       (∀ path content, fs !! path = Some content →
          fs' !! path = Some content)).
Proof.
  split; [|split; [|split]].
  - intros Hseed. unfold generate. by rewrite Hseed.
  - intros g0 Hseed Hprior. unfold generate. by rewrite Hseed, Hprior.
  - intros g0 emb g1 Hseed Hprior Hdec. unfold generate.
    by rewrite Hseed, Hprior, Hdec.
  - intros g0 emb g1 g2 saved img rest fs1 filename partial
      Hseed Hprior Hdec Hsaved Hnext Henv.
    assert (save_images' fuel (saved ++ img :: rest) fs
            = Some (Raise e, leftover partial filename fs1)) as Hloop.
    { by rewrite save_images_app, Hsaved, save_images_cons, Hnext, Henv. }
    destruct (save_images_spec _ _ _ _ _ Hsaved)
      as (names & Hnodup & Hfree & _ & Hlen & ->).
    exists names, (leftover partial filename
                     (write_files (zip names (to_png <$> saved)) fs)).
    split; [|split; [done|split; [done|split; [done|split]]]].
    + by rewrite (generate_after_stages _ _ _ _ _ _ _ _ Hseed Hprior Hdec), Hloop.
    + intros k name img' Hname Himg. split.
      * apply Hfree. by eapply list_elem_of_lookup_2.
      * apply leftover_preserves; [by eapply get_next_filename_fresh|].
        apply (write_files_lookup _ _ _ k); [done|done|].
        by rewrite list_lookup_fmap, Himg.
    + intros path content Hpath.
      apply leftover_preserves; [by eapply get_next_filename_fresh|].
      by eapply save_images_preserves.
Qed.

(** *** Claims that involve the frontend *)

Context {Rng : Type}.
Variable randint : Z → Z → Rng → Z * Rng.

Local Abbreviation run_request' := (run_request (Float:=Float) randint).
Local Abbreviation run' :=
  (run randint manual_seed prior_pipeline decoder_pipeline callback_prior
     to_png save_env).

(** With the checkbox off, the request is the submission as it stands and
    the random module is not consulted. *)
Lemma run_request_not_randomized (sub : Submission Float) (rng : Rng) :
  in_randomize_seed sub = false →
  run_request' sub rng
  = ({| prompt := in_prompt sub;
        negative_prompt := in_negative_prompt sub;
        seed := in_seed sub;
        width := in_width sub;
        height := in_height sub;
        prior_num_inference_steps := in_prior_num_inference_steps sub;
        prior_guidance_scale := in_prior_guidance_scale sub;
        decoder_num_inference_steps := in_decoder_num_inference_steps sub;
        decoder_guidance_scale := in_decoder_guidance_scale sub;
        num_images_per_prompt := in_num_images_per_prompt sub |}, rng).
Proof. intros Hoff. unfold run_request, randomize_seed_fn. by rewrite Hoff. Qed.

Lemma run_unfold fuel (sub : Submission Float) (rng : Rng) (fs : disk) :
  run' fuel sub rng fs
  = (generate' fuel (run_request' sub rng).1 fs, (run_request' sub rng).2).
Proof. unfold run. by destruct (run_request' sub rng). Qed.

(** C1: two calls of [generate] on the same request that both return,
    whatever the file systems they start from, yield the same images and
    write the same bytes: the images are those the decoder stage produces
    from the generator that [manual_seed] builds from the request's seed,
    as the prior stage leaves it.  With the randomize checkbox off, two
    runs of the frontend chain on the same submission are two such
    calls. *)
Theorem generate_deterministic :
  (∀ req fuel1 fuel2 (fs1 fs2 : disk) out1 out2 fs1' fs2',
     generate' fuel1 req fs1 = Some (Ok out1, fs1') →
     generate' fuel2 req fs2 = Some (Ok out2, fs2') →
     out1 = out2 ∧
     (∃ g0 emb g1 g2,
        manual_seed (seed req) = Ok g0 ∧
        prior_pipeline (prior_call' req) g0 = Ok (emb, g1) ∧
        decoder_pipeline (decoder_call req emb) g1 = Ok (out1, g2)) ∧
     (∃ names1 names2 : list string,
        length names1 = length out1 ∧ length names2 = length out1 ∧
        fs1' = write_files (zip names1 (to_png <$> out1)) fs1 ∧
        fs2' = write_files (zip names2 (to_png <$> out1)) fs2)) ∧
  (∀ sub fuel1 fuel2 rng1 rng2 (fs1 fs2 : disk) out1 out2 fs1' fs2',
     in_randomize_seed sub = false →
     (run' fuel1 sub rng1 fs1).1 = Some (Ok out1, fs1') →
     (run' fuel2 sub rng2 fs2).1 = Some (Ok out2, fs2') →
     out1 = out2).
Proof.
  assert (∀ req fuel1 fuel2 (fs1 fs2 : disk) out1 out2 fs1' fs2',
            generate' fuel1 req fs1 = Some (Ok out1, fs1') →
            generate' fuel2 req fs2 = Some (Ok out2, fs2') →
            out1 = out2) as Hsame.
  { intros req fuel1 fuel2 fs1 fs2 out1 out2 fs1' fs2'
      (g0 & emb & g1 & g2 & Hseed & Hprior & Hdec & _)%generate_ok_inv
      (g0' & emb' & g1' & g2' & Hseed' & Hprior' & Hdec' & _)%generate_ok_inv.
    rewrite Hseed in Hseed'. injection Hseed' as <-.
    rewrite Hprior in Hprior'. injection Hprior' as <- <-.
    rewrite Hdec in Hdec'. by injection Hdec' as <- _. }
  split.
  - intros req fuel1 fuel2 fs1 fs2 out1 out2 fs1' fs2' Hgen1 Hgen2.
    pose proof (Hsame _ _ _ _ _ _ _ _ _ Hgen1 Hgen2) as <-.
    apply generate_ok_inv in Hgen1
      as (g0 & emb & g1 & g2 & Hseed & Hprior & Hdec & Hsave1).
    apply generate_ok_inv in Hgen2 as (_ & _ & _ & _ & _ & _ & _ & Hsave2).
    split; [done|]. split; [by exists g0, emb, g1, g2|].
    destruct (save_images_spec _ _ _ _ _ Hsave1)
      as (names1 & _ & _ & _ & Hlen1 & ->).
    destruct (save_images_spec _ _ _ _ _ Hsave2)
      as (names2 & _ & _ & _ & Hlen2 & ->).
    by exists names1, names2.
  - intros sub fuel1 fuel2 rng1 rng2 fs1 fs2 out1 out2 fs1' fs2' Hoff.
    rewrite !run_unfold, !run_request_not_randomized by done. simpl.
    apply Hsame.
Qed.

(** *** The framework step before [generate] *)

Variable preprocess_inputs : Submission Float → result Exn (Submission Float).
Variable float_4_0 : Float.
Variable float_0_0 : Float.
Variable MAX_IMAGE_SIZE : Z.

Local Abbreviation generate_event' :=
  (generate_event preprocess_inputs manual_seed prior_pipeline
     decoder_pipeline callback_prior to_png save_env).
Local Abbreviation example_event' :=
  (example_event manual_seed prior_pipeline decoder_pipeline callback_prior
     to_png save_env float_4_0 float_0_0).

(** The framework's contract for a slider used as an input: a value below
    the slider's minimum or above its maximum is not handed to the bound
    function.  Here for the width and height sliders of [create_demo]. *)
Hypothesis preprocess_inputs_bounds :
  ∀ payload sub, preprocess_inputs payload = Ok sub →
    within_bounds (width_slider MAX_IMAGE_SIZE) (in_width sub) = true ∧
    within_bounds (height_slider MAX_IMAGE_SIZE) (in_height sub) = true.

End OrchestratorProperties.

(** ** The claims on the stand-ins *)

Lemma generate_saves_each_image_witness :
  ∃ (names : list string) (fs' : disk),
    Stub.generate Stub.save_always 5 (Stub.request 7 1024 1024 2) ∅
    = Some (Ok [16; 17], fs') ∧
    length names = 2%nat ∧ NoDup names ∧
    ∀ k name img, names !! k = Some name → [16; 17] !! k = Some img →
      fs' !! name = Some (Stub.to_png img).
Proof.
  destruct (generate_saves_each_image
              Stub.manual_seed Stub.prior_pipeline Stub.decoder_pipeline tt
              Stub.to_png Stub.save_always
              5 (Stub.request 7 1024 1024 2) ∅ 7 [7; 8] 9 [16; 17] 11)
    as (names & fs' & Hgen & Hlen & Hnodup & _ & _ & _ & Hdisk);
    [vm_compute; reflexivity | vm_compute; reflexivity
    | vm_compute; reflexivity | reflexivity | vm_compute; lia |].
  exists names, fs'. split; [exact Hgen|]. split; [exact Hlen|].
  split; [exact Hnodup | exact Hdisk].
Defined.

Lemma allocated_path_is_fresh_witness :
  os_path_exists (<["outputs/img_0001.png"%string := []]> ∅)
    "outputs/img_0002.png" = false.
Proof.
  destruct (allocated_path_is_fresh
              Stub.manual_seed Stub.prior_pipeline Stub.decoder_pipeline tt
              Stub.to_png Stub.save_always
              (<["outputs/img_0001.png"%string := []]> ∅))
    as (_ & Hfresh & _).
  destruct (Hfresh 3%nat "outputs/img_0002.png"%string) as [Hnone _];
    [vm_compute; reflexivity | exact Hnone].
Defined.

Lemma generate_errors_propagate_witness :
  ∃ (names : list string) (fs' : disk),
    Stub.generate Stub.save_until_full 5 (Stub.request 7 1024 1024 3) ∅
    = Some (Raise "OSError: No space left on device"%string, fs') ∧
    length names = 2%nat ∧ NoDup names ∧
    ∀ k name img, names !! k = Some name → [17; 18] !! k = Some img →
      (∅ : disk) !! name = None ∧ fs' !! name = Some (Stub.to_png img).
Proof.
  destruct (generate_errors_propagate
              Stub.manual_seed Stub.prior_pipeline Stub.decoder_pipeline tt
              Stub.to_png Stub.save_until_full
              5 (Stub.request 7 1024 1024 3) ∅
              "OSError: No space left on device"%string)
    as (_ & _ & _ & Hsave).
  destruct (Hsave 7 [7; 8; 9] 10 13 [17; 18] 19 []
              (<["outputs/img_0002.png"%string := [Byte.x12]]>
                 (<["outputs/img_0001.png"%string := [Byte.x11]]> ∅))
              "outputs/img_0003.png"%string None)
    as (names & fs' & Hgen & _ & Hlen & Hnodup & Hdisk & _);
    [vm_compute; reflexivity | vm_compute; reflexivity
    | vm_compute; reflexivity | vm_compute; reflexivity
    | vm_compute; reflexivity | vm_compute; reflexivity |].
  exists names, fs'. split; [exact Hgen|]. split; [exact Hlen|].
  split; [exact Hnodup | exact Hdisk].
Defined.

Lemma generate_deterministic_witness :
  ∃ g0 emb g1 g2,
    Stub.manual_seed 7 = Ok g0 ∧
    Stub.prior_pipeline (prior_call tt (Stub.request 7 1024 1024 2)) g0
    = Ok (emb, g1) ∧
    Stub.decoder_pipeline (decoder_call (Stub.request 7 1024 1024 2) emb) g1
    = Ok ([16; 17], g2).
Proof.
  destruct (generate_deterministic
              Stub.manual_seed Stub.prior_pipeline Stub.decoder_pipeline tt
              Stub.to_png Stub.save_always Stub.randint)
    as [Hgen _].
  destruct (Hgen (Stub.request 7 1024 1024 2) 5%nat 5%nat
              ∅
              (<["outputs/img_0002.png"%string := [Byte.x11]]>
                 (<["outputs/img_0001.png"%string := [Byte.x10]]> ∅))
              [16; 17] [16; 17]
              (<["outputs/img_0002.png"%string := [Byte.x11]]>
                 (<["outputs/img_0001.png"%string := [Byte.x10]]> ∅))
              (<["outputs/img_0004.png"%string := [Byte.x11]]>
                 (<["outputs/img_0003.png"%string := [Byte.x10]]>
                    (<["outputs/img_0002.png"%string := [Byte.x11]]>
                       (<["outputs/img_0001.png"%string := [Byte.x10]]> ∅)))))
    as (_ & Hstages & _);
    [vm_compute; reflexivity | vm_compute; reflexivity | exact Hstages].
Defined.



Example generate_event_in_bounds_run :
  generate_event (Stub.preprocess_inputs 2048)
    Stub.manual_seed Stub.prior_pipeline Stub.decoder_pipeline tt
    Stub.to_png Stub.save_always
    5 (Stub.submission 0 false 1024 2048 1) ∅
  = Some (Ok [1], <["outputs/img_0001.png"%string := [Byte.x01]]> ∅).
Proof. vm_compute. reflexivity. Qed.


(* ===================================================================== *)
(** * Part III: further properties of the code                             *)
(* ===================================================================== *)

(** ** Formatting and allocation *)

Lemma read_index_negative n : read_index (format_04d n) = None ↔ n < 0.
Proof.
  unfold format_04d. destruct (Z.ltb_spec n 0) as [Hneg|Hpos].
  - split; [done|]. intros _. unfold read_index.
    cbn [NilEmpty.uint_of_string].
    by destruct (NilEmpty.uint_of_string (zfill 3 (decimal (- n)))).
  - rewrite read_index_zfill. split; [done|lia].
Qed.

Lemma format_04d_inj_all i j : format_04d i = format_04d j → i = j.
Proof.
  intros Heq.
  destruct (Z.ltb_spec i 0) as [Hi|Hi], (Z.ltb_spec j 0) as [Hj|Hj].
  - unfold format_04d in Heq.
    rewrite (proj2 (Z.ltb_lt i 0) Hi), (proj2 (Z.ltb_lt j 0) Hj) in Heq.
    injection Heq as Heq. apply (f_equal read_index) in Heq.
    rewrite !read_index_zfill in Heq. injection Heq. lia.
  - apply read_index_negative in Hi. rewrite Heq in Hi.
    apply read_index_negative in Hi. lia.
  - apply read_index_negative in Hj. rewrite <- Heq in Hj.
    apply read_index_negative in Hj. lia.
  - by apply format_04d_inj.
Qed.

Lemma output_filename_ne (i j : Z) :
  i ≠ j → output_filename i ≠ output_filename j.
Proof.
  intros Hne Heq. apply Hne. unfold output_filename in Heq.
  apply String.app_inj in Heq. apply append_inj_l in Heq.
  by apply format_04d_inj_all.
Qed.

(** X1: two different indices never share a file name, at any magnitude and
    for either sign: the padding to four digits does not truncate and the
    sign is kept. *)
Theorem output_filename_distinct (i j : Z) :
  i ≠ j → output_filename i ≠ output_filename j.
Proof.
  intros Hne. by apply output_filename_ne.
Qed.

Lemma output_filename_distinct_witness :
  output_filename 9999 ≠ output_filename 10000.
Proof. apply output_filename_distinct. lia. Defined.

(** X2: whatever [get_next_filename] returns is the name of the lowest
    index, counted from 1, whose file does not exist; that index is at most
    the number of files on disk plus one. *)
Theorem get_next_filename_lowest_free (fuel : nat) (fs : disk) filename :
  get_next_filename fuel fs = Some filename →
  ∃ j, 1 ≤ j ≤ Z.of_nat (size fs) + 1 ∧
       filename = output_filename j ∧
       fs !! output_filename j = None ∧
       ∀ k, 1 ≤ k < j → is_Some (fs !! output_filename k).
Proof.
  intros (j & Hj & -> & Hfree & Hbelow)%get_next_filename_loop_sound.
  exists j. split; [|split; [done|split]].
  - split; [done|].
    destruct (free_index_exists fs) as (i & Hi & Hnone).
    destruct (decide (j ≤ i)) as [|Hgt]; [lia|].
    apply os_path_exists_false in Hnone.
    rewrite Hbelow in Hnone by lia. done.
  - by apply os_path_exists_false.
  - intros k Hk. apply os_path_exists_true. by apply Hbelow.
Qed.

Lemma get_next_filename_lowest_free_witness :
  ∃ j, 1 ≤ j ≤ 3 ∧ "outputs/img_0002.png"%string = output_filename j.
Proof.
  destruct (get_next_filename_lowest_free 5
              (<["outputs/img_0003.png"%string := []]>
                 (<["outputs/img_0001.png"%string := []]> ∅))
              "outputs/img_0002.png")
    as (j & Hj & Hname & _); [vm_compute; reflexivity|].
  exists j. split; [exact Hj | exact Hname].
Defined.

Lemma get_next_filename_loop_ext fuel (pe1 pe2 : string → bool) index :
  (∀ j, index ≤ j → pe1 (output_filename j) = pe2 (output_filename j)) →
  get_next_filename_loop fuel pe1 index = get_next_filename_loop fuel pe2 index.
Proof.
  revert index. induction fuel as [|fuel IH]; intros index Hagree; [done|].
  rewrite !get_next_filename_loop_step, <- Hagree by lia.
  destruct (pe1 (output_filename index)); [|done].
  apply IH. intros j ?. apply Hagree. lia.
Qed.

(** X3: the allocation depends only on which of the names
    [outputs/img_NNNN.png], [NNNN ≥ 1], exist: two file systems that agree
    on the existence of these get the same answer, whatever else they hold
    and whatever the files contain. *)
Theorem get_next_filename_ignores_other_files (fuel : nat) (fs1 fs2 : disk) :
  (∀ j, 1 ≤ j →
     os_path_exists fs1 (output_filename j)
     = os_path_exists fs2 (output_filename j)) →
  get_next_filename fuel fs1 = get_next_filename fuel fs2.
Proof. intros Hagree. by apply get_next_filename_loop_ext. Qed.

Lemma get_next_filename_ignores_other_files_witness :
  get_next_filename 3 (<["notes.txt"%string := [Byte.x41]]> ∅)
  = get_next_filename 3 ∅.
Proof.
  apply get_next_filename_ignores_other_files. intros j _.
  unfold os_path_exists, output_filename.
  rewrite lookup_insert_ne; [reflexivity|].
  rewrite append_cons. discriminate.
Defined.

(** ** What one call of [generate] leaves on disk *)

Lemma write_files_names_lookup (indices : list Z) (contents : list bytes)
    (fs : disk) k i content :
  StronglySorted Z.lt indices →
  indices !! k = Some i → contents !! k = Some content →
  write_files (zip (output_filename <$> indices) contents) fs
    !! output_filename i = Some content.
Proof.
  intros Hsorted Hi Hcontent.
  apply (write_files_lookup _ _ _ k); [|by rewrite list_lookup_fmap, Hi|done].
  apply NoDup_fmap_2_strong.
  - intros a b _ _ Heq. destruct (decide (a = b)) as [|Hne]; [done|].
    by apply output_filename_ne in Hne.
  - clear -Hsorted. induction Hsorted as [|a l _ IH Hall]; [apply NoDup_nil_2|].
    apply NoDup_cons. split; [|done].
    intros Hin. apply (proj1 (Forall_forall _ _) Hall) in Hin. lia.
Qed.

Section GenerateOnDisk.
Context {Float Image Embeddings Generator Callback Exn : Type}.
Variable manual_seed : Z → result Exn Generator.
Variable prior_pipeline :
  PriorCall Float Callback → Generator → result Exn (Embeddings * Generator).
Variable decoder_pipeline :
  DecoderCall Float Embeddings → Generator → result Exn (list Image * Generator).
Variable callback_prior : Callback.
Variable to_png : Image → bytes.
Variable save_env : disk → string → Image → save_outcome Exn.

Local Abbreviation save_images' := (save_images to_png save_env).
Local Abbreviation generate' :=
  (generate manual_seed prior_pipeline decoder_pipeline callback_prior
     to_png save_env).

Lemma save_images_size fuel imgs (fs : disk) fs' :
  save_images' fuel imgs fs = Some (Ok tt, fs') →
  size fs' = (size fs + length imgs)%nat.
Proof.
  revert fs. induction imgs as [|img imgs IH]; intros fs.
  - intros [= <-]. simpl. lia.
  - rewrite save_images_cons.
    destruct (get_next_filename fuel fs) as [filename|] eqn:Hnext; [|done].
    apply get_next_filename_fresh in Hnext.
    destruct (save_env fs filename img) as [|e partial]; [|done].
    intros Hrest%IH. rewrite Hrest, map_size_insert_None by done. simpl. lia.
Qed.

(** X5: a call of [generate] that returns has added exactly one file per
    yielded image. *)
Theorem generate_adds_one_file_per_image fuel req (fs : disk) out fs' :
  generate manual_seed prior_pipeline decoder_pipeline callback_prior
    to_png save_env fuel req fs = Some (Ok out, fs') →
  size fs' = (size fs + length out)%nat.
Proof.
  intros (g0 & emb & g1 & g2 & _ & _ & _ & Hsave)%generate_ok_inv.
  by apply save_images_size in Hsave.
Qed.

(** The indices the loop allocates: each beyond the one before. *)
Lemma save_images_indices fuel imgs (fs : disk) fs' lo :
  (∀ k, 1 ≤ k < lo → is_Some (fs !! output_filename k)) →
  1 ≤ lo →
  save_images' fuel imgs fs = Some (Ok tt, fs') →
  ∃ indices : list Z,
    length indices = length imgs ∧
    Forall (λ i, lo ≤ i) indices ∧
    StronglySorted Z.lt indices ∧
    fs' = write_files (zip (output_filename <$> indices) (to_png <$> imgs)) fs.
Proof.
  revert fs lo. induction imgs as [|img imgs IH]; intros fs lo Htaken Hlo.
  - intros [= <-]. exists []. repeat split; constructor.
  - rewrite save_images_cons.
    destruct (get_next_filename fuel fs) as [filename|] eqn:Hnext; [|done].
    apply get_next_filename_loop_sound in Hnext as (j & Hj & -> & Hfree & Hbelow).
    assert (lo ≤ j) as Hlj.
    { destruct (decide (lo ≤ j)) as [|Hlt]; [done|].
      apply os_path_exists_false in Hfree.
      destruct (Htaken j) as [c Hc]; [lia|]. congruence. }
    destruct (save_env fs (output_filename j) img) as [|e partial]; [|done].
    intros Hrest. apply (IH _ (j + 1)) in Hrest
      as (indices & Hlen & Hall & Hsorted & ->); [| |lia].
    + exists (j :: indices). split; [simpl; by rewrite Hlen|].
      split; [|split; [|done]].
      * constructor; [done|]. eapply Forall_impl; [exact Hall|].
        intros i ?. simpl in *. lia.
      * constructor; [done|]. eapply Forall_impl; [exact Hall|].
        intros i ?. simpl in *. lia.
    + intros k Hk. destruct (decide (k = j)) as [->|Hne].
      * rewrite lookup_insert_eq. by eexists.
      * rewrite lookup_insert_ne by (by apply output_filename_ne).
        apply os_path_exists_true. apply Hbelow. lia.
Qed.

(** X6: within one call that returns, the images are saved under strictly
    increasing indices, all at least 1, in batch order: image [k] of the
    yielded list is the content of the file of the [k]-th index. *)
Theorem generate_saves_under_increasing_indices
    fuel req (fs : disk) out fs' :
  generate' fuel req fs = Some (Ok out, fs') →
  ∃ indices : list Z,
    length indices = length out ∧
    Forall (λ i, 1 ≤ i) indices ∧
    StronglySorted Z.lt indices ∧
    fs' = write_files (zip (output_filename <$> indices) (to_png <$> out)) fs ∧
    ∀ k i img, indices !! k = Some i → out !! k = Some img →
      fs' !! output_filename i = Some (to_png img).
Proof.
  intros (g0 & emb & g1 & g2 & _ & _ & _ & Hsave)%generate_ok_inv.
  apply (save_images_indices _ _ _ _ 1) in Hsave
    as (indices & Hlen & Hall & Hsorted & ->); [|intros k ?; lia|lia].
  exists indices. split; [done|]. split; [done|]. split; [done|].
  split; [done|]. intros k i img Hi Himg.
  apply (write_files_names_lookup _ _ _ k); [done|done|].
  by rewrite list_lookup_fmap, Himg.
Qed.

Lemma get_next_filename_loop_more_fuel fuel fuel' path_exists index filename :
  get_next_filename_loop fuel path_exists index = Some filename →
  (fuel ≤ fuel')%nat →
  get_next_filename_loop fuel' path_exists index = Some filename.
Proof.
  revert fuel' index. induction fuel as [|fuel IH]; intros fuel' index; [done|].
  intros Hloop Hle. destruct fuel' as [|fuel']; [lia|].
  rewrite get_next_filename_loop_step in *.
  destruct (path_exists (output_filename index)); [|done].
  apply IH; [done|lia].
Qed.

Lemma save_images_more_fuel fuel fuel' imgs (fs : disk) x :
  save_images' fuel imgs fs = Some x →
  (fuel ≤ fuel')%nat →
  save_images' fuel' imgs fs = Some x.
Proof.
  intros Hsave Hle. revert fs Hsave.
  induction imgs as [|img imgs IH]; intros fs; [done|].
  rewrite !save_images_cons.
  destruct (get_next_filename fuel fs) as [filename|] eqn:Hnext; [|done].
  unfold get_next_filename in *.
  rewrite (get_next_filename_loop_more_fuel _ _ _ _ _ Hnext Hle).
  destruct (save_env fs filename img); [apply IH|done].
Qed.

(** X8: [generate] terminates whenever its stages do: for every request and
    file system there is one outcome, a yielded batch or a raised error with
    the file system left behind, that every sufficiently large fuel
    produces. *)
Theorem generate_terminates req (fs : disk) :
  ∃ r fs' fuel0, ∀ fuel, (fuel0 ≤ fuel)%nat →
    generate manual_seed prior_pipeline decoder_pipeline callback_prior
      to_png save_env fuel req fs = Some (r, fs').
Proof.
  unfold generate.
  destruct (manual_seed (seed req)) as [g0|e];
    [|by exists (Raise e), fs, 0%nat].
  destruct (prior_pipeline _ g0) as [[emb g1]|e];
    [|by exists (Raise e), fs, 0%nat].
  destruct (decoder_pipeline _ g1) as [[imgs g2]|e];
    [|by exists (Raise e), fs, 0%nat].
  destruct (save_images_returns to_png save_env
              (size fs + length imgs) imgs fs) as (r & fs' & Hsave); [lia|].
  destruct r as [[]|e].
  - exists (Ok imgs), fs', (size fs + length imgs)%nat. intros fuel Hfuel.
    by rewrite (save_images_more_fuel _ _ _ _ _ Hsave Hfuel).
  - exists (Raise e), fs', (size fs + length imgs)%nat. intros fuel Hfuel.
    by rewrite (save_images_more_fuel _ _ _ _ _ Hsave Hfuel).
Qed.
End GenerateOnDisk.

Lemma generate_adds_one_file_per_image_witness :
  size (<["outputs/img_0002.png"%string := [Byte.x11]]>
          (<["outputs/img_0001.png"%string := [Byte.x10]]> ∅) : disk)
  = (size (∅ : disk) + length [16%Z; 17%Z])%nat.
Proof.
  apply (generate_adds_one_file_per_image
           Stub.manual_seed Stub.prior_pipeline Stub.decoder_pipeline tt
           Stub.to_png Stub.save_always
           5 (Stub.request 7 1024 1024 2)).
  vm_compute. reflexivity.
Defined.

Lemma generate_saves_under_increasing_indices_witness :
  ∃ indices : list Z,
    length indices = 2%nat ∧ StronglySorted Z.lt indices ∧
    ∀ k i img, indices !! k = Some i → [16; 17] !! k = Some img →
      (<["outputs/img_0004.png"%string := [Byte.x11]]>
         (<["outputs/img_0002.png"%string := [Byte.x10]]>
            (<["outputs/img_0003.png"%string := []]>
               (<["outputs/img_0001.png"%string := []]> ∅))) : disk)
        !! output_filename i = Some (Stub.to_png img).
Proof.
  destruct (generate_saves_under_increasing_indices
              Stub.manual_seed Stub.prior_pipeline Stub.decoder_pipeline tt
              Stub.to_png Stub.save_always
              5 (Stub.request 7 1024 1024 2)
              (<["outputs/img_0003.png"%string := []]>
                 (<["outputs/img_0001.png"%string := []]> ∅))
              [16; 17]
              (<["outputs/img_0004.png"%string := [Byte.x11]]>
                 (<["outputs/img_0002.png"%string := [Byte.x10]]>
                    (<["outputs/img_0003.png"%string := []]>
                       (<["outputs/img_0001.png"%string := []]> ∅)))))
    as (indices & Hlen & _ & Hsorted & _ & Hdisk); [vm_compute; reflexivity|].
  exists indices. split; [exact Hlen|]. split; [exact Hsorted | exact Hdisk].
Defined.

Lemma generate_terminates_witness :
  ∃ r fs' fuel0,
    Stub.generate Stub.save_until_full fuel0 (Stub.request 7 1024 1024 3) ∅
    = Some (r, fs').
Proof.
  destruct (generate_terminates
              Stub.manual_seed Stub.prior_pipeline Stub.decoder_pipeline tt
              Stub.to_png Stub.save_until_full
              (Stub.request 7 1024 1024 3) ∅)
    as (r & fs' & fuel0 & Hfuel).
  exists r, fs', fuel0. apply Hfuel. lia.
Defined.

(** ** A process without an accelerated device *)

Section WithoutCuda.
Context {Float Image Embeddings Generator Previewer Exn : Type}.
Variable NameError : string → Exn.
Variable TypeError : string → Exn.
Variable manual_seed : Z → result Exn Generator.
Variable to_png : Image → bytes.
Variable save_env : disk → string → Image → save_outcome Exn.

(** X11: when [torch.cuda.is_available()] was false at startup, every call
    of [generate] raises and writes nothing: the error of [manual_seed] if
    the seed is refused, and otherwise the [NameError] for [callback_prior],
    which the module body never assigned on that branch; no stage is
    reached. *)
Theorem generate_without_cuda
    loaded_prior loaded_decoder (previewer_callback : Previewer)
    fuel (req : Request Float) (fs : disk) :
  (∀ e, manual_seed (seed req) = Raise e →
     generate_with (Image:=Image) (Embeddings:=Embeddings)
       NameError TypeError manual_seed to_png save_env
       (module_globals false loaded_prior loaded_decoder previewer_callback)
       fuel req fs
     = Some (Raise e, fs)) ∧
  (∀ g0, manual_seed (seed req) = Ok g0 →
     generate_with (Image:=Image) (Embeddings:=Embeddings)
       NameError TypeError manual_seed to_png save_env
       (module_globals false loaded_prior loaded_decoder previewer_callback)
       fuel req fs
     = Some (Raise (NameError "name 'callback_prior' is not defined"), fs)).
Proof.
  split.
  - intros e Hseed. unfold generate_with, generate. by rewrite Hseed.
  - intros g0 Hseed. unfold generate_with, generate. by rewrite Hseed.
Qed.
End WithoutCuda.

Lemma generate_without_cuda_witness :
  generate_with Stub.name_error Stub.type_error Stub.manual_seed
    Stub.to_png Stub.save_always
    (module_globals false Stub.loaded_prior Stub.decoder_pipeline tt)
    5 (Stub.request 7 1024 1024 2) ∅
  = Some (Raise "NameError: name 'callback_prior' is not defined"%string, ∅).
Proof.
  destruct (generate_without_cuda Stub.name_error Stub.type_error
              Stub.manual_seed Stub.to_png Stub.save_always
              Stub.loaded_prior Stub.decoder_pipeline tt
              5 (Stub.request 7 1024 1024 2) ∅) as [_ Hname].
  apply (Hname 7). vm_compute. reflexivity.
Defined.

Example generate_with_cuda_run :
  generate_with Stub.name_error Stub.type_error Stub.manual_seed
    Stub.to_png Stub.save_always
    (module_globals true Stub.loaded_prior Stub.decoder_pipeline tt)
    5 (Stub.request 7 1024 1024 2) ∅
  = Stub.generate Stub.save_always 5 (Stub.request 7 1024 1024 2) ∅.
Proof. vm_compute. reflexivity. Qed.
